(** * Shallow embedding of [MongoPersistence] (persistence/db/mongo/__init__.py)

    The batched, retrying persistence engine: [persist] pushes a document on a
    [collections.deque] with [appendleft], [do_update] checks the batch-size
    threshold, drains the deque with [pop] (right end) and writes the batch
    with [bulk_write] (update mode) or [objects.insert] (insert mode) inside a
    retry loop; [finalize] forces a last batch; [drop_model_data] deletes
    documents with a raw query.

    Effects are modelled by a small state-and-exception monad over a world
    holding the deque, the counter, the number of store calls made so far and
    the trace of observable events (store calls, log lines, sleeps).  The
    store is an oracle deciding, for the i-th write call, whether it raises. *)

From Stdlib Require Import Ascii String List ZArith Bool Lia.
Import ListNotations.
Open Scope Z_scope.

(** ** A state monad with Python-like exceptions *)

Inductive res (E A : Type) : Type :=
| Ok (a : A)
| Exc (e : E).
Arguments Ok {E A} a.
Arguments Exc {E A} e.

Definition SE (S E A : Type) : Type := S -> res E A * S.

Definition ret {S E A} (a : A) : SE S E A := fun s => (Ok a, s).

Definition bind {S E A B} (m : SE S E A) (k : A -> SE S E B) : SE S E B :=
  fun s => match m s with
           | (Ok a, s') => k a s'
           | (Exc e, s') => (Exc e, s')
           end.

(** [raise e]: state changes made before the raise are kept. *)
Definition raise {S E A} (e : E) : SE S E A := fun s => (Exc e, s).

(** [try m except e: h e]: the handler runs on the state left by [m]. *)
Definition catch {S E A} (m : SE S E A) (h : E -> SE S E A) : SE S E A :=
  fun s => match m s with
           | (Ok a, s') => (Ok a, s')
           | (Exc e, s') => h e s'
           end.

Notation "x <- m ;; k" := (bind m (fun x => k))
  (at level 61, m at next level, right associativity).
Notation "m ;; k" := (bind m (fun _ => k))
  (at level 61, right associativity).

(** ** Python values and the extended integers of [min_batch_size] *)

(** A threshold is an [int] or [math.inf]. *)
Inductive ext : Type :=
| Fin (z : Z)
| Inf.

(** [n < t] for a queue length [n]. *)
Definition below (n : nat) (t : ext) : bool :=
  match t with
  | Fin m => Z.of_nat n <? m
  | Inf => true
  end.

Section Mongo.

Context {doc filt updoc inst err rawq kwv : Type}.

(** The value of a keyword argument passed through [**kwds]: a Python
    [bool], or any other object. *)
Inductive kwval : Type :=
| KwBool (b : bool)
| KwObj (o : kwv).

(** A dict of keyword arguments, by name. *)
Definition kwargs : Type := list (string * kwval).

(** pymongo's [UpdateOne(filter, update, upsert=..., **kwds)] and [UpdateMany]. *)
Inductive op : Type :=
| UpdateOne (q : filt) (u : updoc) (upsert : bool) (kwds : kwargs)
| UpdateMany (q : filt) (u : updoc) (upsert : bool) (kwds : kwargs).

(** Log messages of [do_update], by their numeric contents. *)
Inductive msg : Type :=
| MsgFailed                                 (* "Update attempt ... failed." *)
| MsgFailedRetrying (attempt n_left : Z)    (* "... no. {attempt} ... Retrying {n_left} times." *)
| MsgFailedLast (attempt : Z)               (* "Last update attempt ... Stop trying." *)
| MsgUpdated (n_docs : nat) (total : nat).  (* "Updated {n_docs} records ... ({count} in total)." *)

Inductive event : Type :=
| EvBulkWrite (ops : list op) (bulk_write_kwds : kwargs)
                                                (* collection.bulk_write(ops, **bulk_write_kwds) *)
| EvInsert (docs : list inst)                   (* model.objects.insert(docs) *)
| EvDeleteRaw (q : rawq)                        (* model.objects(__raw__=q).delete() *)
| EvLogException (m : msg)                      (* logger.exception(m) *)
| EvLogInfo (m : msg)                           (* logger.info(m) *)
| EvSleep (seconds : Z).                        (* time.sleep(seconds) *)

(** The exceptions that can reach the caller. *)
Inductive exn : Type :=
| StoreError (e : err)      (* raised by bulk_write / insert *)
| IndexError                (* deque.pop() on an empty deque *)
| UnboundLocalError.        (* reading a deleted local variable *)

Inductive pyval : Type :=
| PyNone
| PyBool (b : bool)
| PyInt (z : Z).

(** [queue] is the deque, its left end at the head of the list. *)
Record world : Type := mkWorld {
  queue : list doc;
  count : nat;
  ncalls : nat;
  trace : list event
}.

Definition M (A : Type) : Type := SE world exn A.

(** The [query] argument of [drop_model_data]: a mapping (raw query) or a
    callable run on [self]. *)
Inductive query_arg : Type :=
| QMapping (m : rawq)
| QCallable (f : M pyval).

(** The settings of the persistence object (MongoPersistenceInterface). *)
Record config : Type := mkConfig {
  batch_size : option Z;             (* None or an int *)
  n_retry : Z;
  update : bool;
  multiple : bool;
  upsert : bool;
  logger : bool;                      (* self.logger is truthy *)
  backoff_time : Z;
  query : doc -> filt;               (* self.query(doc) *)
  processor : doc -> updoc;          (* self.processor(doc) *)
  model : doc -> inst;               (* self.model( **doc) *)
  from_dict : option (doc -> doc);   (* model.from_dict(., only_dict=True), if defined *)
  clear_model : query_arg
}.

(** The database behind the model. *)
Record store : Type := mkStore {
  write_fails : nat -> option err;   (* outcome of the i-th write call *)
  delete_count : rawq -> Z           (* documents matching a raw query *)
}.

(** The keyword arguments [**kwds] of [do_update], passed on to
    [make_bulk_update(bulk_write_kwds=None, **kwds)] and from there to
    [make_update_op(doc, multiple=None, upsert=None, **kwds)], which passes
    the remaining ones to [UpdateOne]/[UpdateMany].  An argument left out is
    [None], as is one passed as [None]. *)
Record kwds : Type := mkKwds {
  kw_bulk_write_kwds : option kwargs;
  kw_multiple : option bool;
  kw_upsert : option bool;
  kw_rest : kwargs
}.

Definition no_kwds : kwds := mkKwds None None None [].

Variable cfg : config.
Variable st : store.

(** *** World accessors *)

Definition get_queue : M (list doc) := fun w => (Ok (queue w), w).

Definition set_queue (q : list doc) (w : world) : world :=
  mkWorld q (count w) (ncalls w) (trace w).

Definition emit (e : event) (w : world) : world :=
  mkWorld (queue w) (count w) (ncalls w) (trace w ++ [e]).

Definition log_exception (m : msg) : M unit :=
  fun w => (Ok tt, if logger cfg then emit (EvLogException m) w else w).

Definition log_info (m : msg) : M unit :=
  fun w => (Ok tt, if logger cfg then emit (EvLogInfo m) w else w).

(** [self.queue.appendleft(d)] *)
Definition queue_appendleft (d : doc) : M unit :=
  fun w => (Ok tt, set_queue (d :: queue w) w).

(** [self.queue.pop()]: removes the right end, [IndexError] when empty. *)
Definition queue_pop : M doc :=
  fun w => match rev (queue w) with
           | [] => (Exc IndexError, w)
           | d :: r => (Ok d, set_queue (rev r) w)
           end.

(** A write call on the collection: recorded, then the store decides. *)
Definition store_write (e : event) : M unit :=
  fun w =>
    let w' := mkWorld (queue w) (count w) (S (ncalls w)) (trace w ++ [e]) in
    match write_fails st (ncalls w) with
    | None => (Ok tt, w')
    | Some x => (Exc (StoreError x), w')
    end.

(** [self.inc(print_num=...)] *)
(** Modelled from the spec: [DBPersistence.inc] (base class, not in the
    sources) increments the Counter by one; printing is not observable here. *)
Definition inc : M unit :=
  fun w => (Ok tt, mkWorld (queue w) (S (count w)) (ncalls w) (trace w)).

(** *** [make_update_op] *)
Definition make_update_op (kw : kwds) (d : doc) : op :=
  let mult := match kw_multiple kw with Some b => b | None => multiple cfg end in
  let ups := match kw_upsert kw with Some b => b | None => upsert cfg end in
  let update_query := query cfg d in
  let upd := processor cfg d in
  if mult then UpdateMany update_query upd ups (kw_rest kw)
  else UpdateOne update_query upd ups (kw_rest kw).

(** *** [make_bulk_update]

    [while self.queue: bulk_ops.append(self.make_update_op(self.queue.pop()))];
    the loop runs at most once per element, so the queue length is its fuel. *)
Fixpoint make_bulk_ops (fuel : nat) (kw : kwds) (bulk_ops : list op) : M (list op) :=
  match fuel with
  | O => ret bulk_ops
  | S f =>
      q <- get_queue ;;
      match q with
      | [] => ret bulk_ops
      | _ :: _ =>
          d <- queue_pop ;;
          make_bulk_ops f kw (bulk_ops ++ [make_update_op kw d])
      end
  end.

(** [if bulk_write_kwds is None: bulk_write_kwds = {'ordered': False}] *)
Definition bulk_write_args (kw : kwds) : kwargs :=
  match kw_bulk_write_kwds kw with
  | None => [("ordered"%string, KwBool false)]
  | Some k => k
  end.

Definition make_bulk_update (kw : kwds) : M unit :=
  let bulk_write_kwds := bulk_write_args kw in
  q <- get_queue ;;
  bulk_ops <- make_bulk_ops (length q) kw [] ;;
  match bulk_ops with
  | [] => ret tt
  | _ :: _ => store_write (EvBulkWrite bulk_ops bulk_write_kwds)
  end.

(** *** Insert mode: [[self.model( **self.queue.pop()) for _ in range(n_docs)]] *)
Fixpoint pop_models (n : nat) : M (list inst) :=
  match n with
  | O => ret []
  | S n' =>
      d <- queue_pop ;;
      rest <- pop_models n' ;;
      ret (model cfg d :: rest)
  end.

(** The body of the [try] block of one attempt. *)
Definition attempt_body (upd : bool) (n_docs : nat) (kw : kwds) : M unit :=
  if negb upd
  then docs <- pop_models n_docs ;; store_write (EvInsert docs)
  else make_bulk_update kw.

(** The local variable [exc] of [do_update]: [except Exception as exc]
    deletes [exc] when the handler ends, so it is unbound afterwards. *)
Inductive local : Type :=
| Unbound
| Bound (v : option exn).

(** The failure message of attempt [attempt]. *)
Definition failure_msg (n_attempts attempt : Z) : msg :=
  let n_left := n_attempts - attempt in
  if n_attempts =? 1 then MsgFailed
  else if 0 <? n_left then MsgFailedRetrying attempt n_left
  else MsgFailedLast attempt.

(** [while attempt < n_attempts: attempt += 1; try: ...; exc = None; break
     except Exception as exc: ... log ...]; returns the final [exc]. *)
Fixpoint retry_loop (fuel : nat) (upd : bool) (n_docs : nat) (kw : kwds)
    (n_attempts attempt : Z) (exc : local) : M local :=
  match fuel with
  | O => ret exc
  | S f =>
      if attempt <? n_attempts then
        let attempt := attempt + 1 in
        catch (attempt_body upd n_docs kw ;; ret (Bound None))
              (fun _ =>
                 log_exception (failure_msg n_attempts attempt) ;;
                 retry_loop f upd n_docs kw n_attempts attempt Unbound)
      else ret exc
  end.

Definition get_count : M nat := fun w => (Ok (count w), w).

(** Lines 232-236 of [do_update]: after the loop. *)
Definition report (n_docs : nat) (exc : local) : M pyval :=
  match exc with
  | Unbound => raise UnboundLocalError          (* if exc: -- exc was deleted *)
  | Bound (Some e) => raise e
  | Bound None =>
      c <- get_count ;;
      log_info (MsgUpdated n_docs c) ;;
      ret PyNone
  end.

(** Lines 209-236 of [do_update]: the retry loop and what follows it. *)
Definition flush (upd : bool) (n_docs : nat) (kw : kwds) : M pyval :=
  let n_attempts := 1 + n_retry cfg in
  exc <- retry_loop (Z.to_nat n_attempts) upd n_docs kw n_attempts 0 (Bound None) ;;
  report n_docs exc.

(** Lines 199-205: the effective minimal batch size. *)
Definition resolve_min_batch_size (min_batch_size : option ext) : ext :=
  match min_batch_size with
  | None =>
      match batch_size cfg with
      | None => Inf
      | Some b => if b <=? 0 then Inf else Fin b
      end
  | Some (Fin m) => if m <=? 0 then Inf else Fin m
  | Some Inf => Inf
  end.

(** *** [do_update(min_batch_size=None, update=None, **kwds)] *)
Definition do_update (min_batch_size : option ext) (upd : option bool) (kw : kwds)
    : M pyval :=
  let upd := match upd with Some b => b | None => update cfg end in
  q <- get_queue ;;
  let n_docs := length q in
  if below n_docs (resolve_min_batch_size min_batch_size)
  then ret (PyBool false)
  else flush upd n_docs kw.

(** *** [persist(doc, print_num=True, **kwds)]: no [return], so [None]. *)
Definition persist (d : doc) (min_batch_size : option ext) (upd : option bool)
    (kw : kwds) : M pyval :=
  inc ;;
  let d := match from_dict cfg with Some f => f d | None => d end in
  queue_appendleft d ;;
  do_update min_batch_size upd kw ;;
  ret PyNone.

(** *** [finalize()]: [self.do_update(min_batch_size=1)], no [return]. *)
Definition finalize : M pyval :=
  do_update (Some (Fin 1)) None no_kwds ;;
  ret PyNone.

(** *** [drop_model_data(query=None, **kwds)] *)

(** [self.model.objects(__raw__=q).delete()]: returns the deleted count. *)
Definition delete_raw (q : rawq) : M pyval :=
  fun w => (Ok (PyInt (delete_count st q)), emit (EvDeleteRaw q) w).

(** Modelled from the spec: [DBPersistence.drop_model_data] (base class, not
    in the sources) runs the query callable on [self] and returns its result,
    the deleted count of [deleteByQuery(query) -> count]. *)
Definition base_drop_model_data (f : M pyval) : M pyval := f.

Definition drop_model_data (qa : option query_arg) : M pyval :=
  let qa := match qa with None => clear_model cfg | Some q => q end in
  let f := match qa with QMapping m => delete_raw m | QCallable f => f end in
  base_drop_model_data f ;;
  ret PyNone.

(** *** Event classes used to state properties of traces *)
Definition is_sleep (e : event) : bool :=
  match e with EvSleep _ => true | _ => false end.

Definition is_log (e : event) : bool :=
  match e with EvLogException _ | EvLogInfo _ => true | _ => false end.

Definition no_sleep (e : event) : Prop := is_sleep e = false.

Definition log_only (e : event) : Prop := is_log e = true.

(** [m] only appends to the trace, and only events satisfying [P]. *)
Definition emits {A} (P : event -> Prop) (m : M A) : Prop :=
  forall w, exists t, trace (snd (m w)) = trace w ++ t /\ Forall P t.

(** The batch a single write call submits for the deque [q]: the records
    popped from the right end, i.e. [rev q]. *)
Definition batch_event (upd : bool) (kw : kwds) (q : list doc) : event :=
  if negb upd
  then EvInsert (map (model cfg) (rev q))
  else EvBulkWrite (map (make_update_op kw) (rev q)) (bulk_write_args kw).

(** The resolution rule of the effective minimal batch size, as the spec
    words it: an explicit per-call value takes precedence, else the
    configured [batch_size]; a size <= 0 (or none) means infinity. *)
Definition spec_min_batch_size (override : option ext) (configured : option Z) : ext :=
  let chosen := match override with
                | Some s => s
                | None => match configured with Some b => Fin b | None => Inf end
                end in
  match chosen with
  | Fin m => if 0 <? m then Fin m else Inf
  | Inf => Inf
  end.

(** A caller's loop [for doc in docs: persistence.persist(doc, **kwds)]. *)
Fixpoint persist_all (ds : list doc) (min_batch_size : option ext) (upd : option bool)
    (kw : kwds) : M unit :=
  match ds with
  | [] => ret tt
  | d :: ds' =>
      persist d min_batch_size upd kw ;;
      persist_all ds' min_batch_size upd kw
  end.

(** The document [persist] queues for [d]. *)
Definition queued_doc (d : doc) : doc :=
  match from_dict cfg with Some f => f d | None => d end.

End Mongo.

(** ** Concrete instances: documents, filters, updates and model instances
    are numbers (the identity is the query key, the update document and the
    model), raw queries are string maps. *)
(** ** [init(user, password, host, port, db, authentication_db=None,
    use_envvars=True, handle_double_auth_error=False)] *)

(** [mongo_uri.format(username=user, password=password, host=host,
    port=port, db=db)] with [mongo_uri = 'mongodb://{username}:{password}@{host}:{port}/{db}']. *)
Definition mongo_uri_format (username password host port db : string) : string :=
  ("mongodb://" ++ username ++ ":" ++ password ++ "@" ++ host ++ ":" ++ port ++ "/" ++ db)%string.

(** [init] returns [mongoengine.connect(host=uri, authentication_source=authentication_db)];
    the connection is represented by these two arguments.  [use_envvars] is
    never read and the [handle_double_auth_error] branch is [pass].
    [if not authentication_db]: [None] and [''] are falsy. *)
Definition init (user password host port db : string) (authentication_db : option string)
    (use_envvars handle_double_auth_error : bool) : string * string :=
  let authentication_db :=
    match authentication_db with
    | None | Some EmptyString => db
    | Some a => a
    end in
  let uri := mongo_uri_format user password host port db in
  (uri, authentication_db).

(** [c in s] for a character [c]. *)
Fixpoint has_char (c : Ascii.ascii) (s : string) : bool :=
  match s with
  | EmptyString => false
  | String a s' => Ascii.eqb a c || has_char c s'
  end.

Module Concrete.

Definition Raw : Type := list (string * string).

Definition cfg0 (bs : option Z) (nr : Z) (upd : bool) (bt : Z)
    : @config nat nat nat nat nat Raw nat :=
  mkConfig bs nr upd false false true bt (fun d => d) (fun d => d) (fun d => d)
           None (QMapping []).

(** The store accepts every write. *)
Definition st_ok : @store nat Raw := mkStore (fun _ => None) (fun _ => 3).

(** Every write call raises [StoreError 7]. *)
Definition st_fail : @store nat Raw := mkStore (fun _ => Some 7%nat) (fun _ => 3).

(** The first write call raises, the later ones succeed. *)
Definition st_fail_first : @store nat Raw :=
  mkStore (fun i => match i with O => Some 7%nat | S _ => None end) (fun _ => 3).

Definition w0 : @world nat nat nat nat Raw nat := mkWorld [] 0 0 [].

(** Records 1 and then 2 persisted below the threshold: the deque is [[2; 1]]. *)
Definition w12 : @world nat nat nat nat Raw nat := mkWorld [2; 1]%nat 2 0 [].

(** Two [persist] calls, of the records 1 and then 2. *)
Definition persist_1_2 (c : @config nat nat nat nat nat Raw nat) (s : @store nat Raw)
    : res exn pyval * world :=
  (persist c s 1%nat None None no_kwds ;; persist c s 2%nat None None no_kwds) w0.

End Concrete.

(** ** Properties *)

Section Proofs.

Context {doc filt updoc inst err rawq kwv : Type}.
Variable cfg : @config doc filt updoc inst err rawq kwv.
Variable st : @store err rawq.

Local Notation W := (@world doc filt updoc inst rawq kwv).
Local Notation MM := (@M doc filt updoc inst err rawq kwv).
Local Notation EV := (@event filt updoc inst rawq kwv).
Local Notation emits_in := (@emits doc filt updoc inst err rawq kwv _).

Lemma bind_eq {A B} (m : MM A) (k : A -> MM B) (w : W) :
  bind m k w = match m w with
               | (Ok a, w') => k a w'
               | (Exc e, w') => (Exc e, w')
               end.
Proof. reflexivity. Qed.

Lemma world_eta (w : W) : w = mkWorld (queue w) (count w) (ncalls w) (trace w).
Proof. destruct w; reflexivity. Qed.

Section Emits.
Variable P : EV -> Prop.

Lemma emits_ret {A} (a : A) : emits_in P (ret a).
Proof. intros w; exists []; rewrite app_nil_r; auto. Qed.

Lemma emits_raise {A} (e : exn) : emits_in P (raise (A:=A) e).
Proof. intros w; exists []; rewrite app_nil_r; auto. Qed.

Lemma emits_bind {A B} (m : MM A) (k : A -> MM B) :
  emits_in P m -> (forall a, emits_in P (k a)) -> emits_in P (bind m k).
Proof.
  intros Hm Hk w. rewrite bind_eq.
  destruct (Hm w) as [t1 [E1 F1]].
  destruct (m w) as [[a|e] w1]; simpl in E1 |- *.
  - destruct (Hk a w1) as [t2 [E2 F2]].
    exists (t1 ++ t2). rewrite E2, E1, app_assoc. split; auto.
    apply Forall_app; auto.
  - exists t1; auto.
Qed.

Lemma emits_catch {A} (m : MM A) (h : exn -> MM A) :
  emits_in P m -> (forall e, emits_in P (h e)) -> emits_in P (catch m h).
Proof.
  intros Hm Hh w. unfold catch.
  destruct (Hm w) as [t1 [E1 F1]].
  destruct (m w) as [[a|e] w1]; simpl in E1 |- *.
  - exists t1; auto.
  - destruct (Hh e w1) as [t2 [E2 F2]].
    exists (t1 ++ t2). rewrite E2, E1, app_assoc. split; auto.
    apply Forall_app; auto.
Qed.

Lemma emits_silent {A} (m : MM A) :
  (forall w, trace (snd (m w)) = trace w) -> emits_in P m.
Proof. intros H w; exists []; rewrite app_nil_r; auto. Qed.

Lemma emits_one {A} (m : MM A) (e : EV) :
  P e -> (forall w, trace (snd (m w)) = trace w \/ trace (snd (m w)) = trace w ++ [e]) ->
  emits_in P m.
Proof.
  intros He H w. destruct (H w) as [E|E].
  - exists []; rewrite app_nil_r; auto.
  - exists [e]; auto.
Qed.

End Emits.


Ltac emits_prim :=
  first
    [ apply emits_silent; intros ?w;
      repeat match goal with
             | |- context [match ?x with _ => _ end] => destruct x
             end; reflexivity
    | eapply emits_one; [ | intros ?w;
        repeat match goal with
               | |- context [match ?x with _ => _ end] => destruct x
               end; simpl; auto ] ].


Lemma make_bulk_ops_no_sleep (n : nat) (kw : kwds) (acc : list op) :
  emits_in no_sleep (make_bulk_ops cfg n kw acc).
Proof.
  revert acc; induction n as [|n IH]; intros acc; simpl.
  - apply emits_ret.
  - apply emits_bind; [unfold get_queue; emits_prim|].
    intros [|d q]; [apply emits_ret|].
    apply emits_bind; [unfold queue_pop; emits_prim|]. intros; apply IH.
Qed.

Lemma make_bulk_update_no_sleep (kw : kwds) :
  emits_in no_sleep (make_bulk_update cfg st kw).
Proof.
  unfold make_bulk_update.
  apply emits_bind; [unfold get_queue; emits_prim|]. intros q.
  apply emits_bind; [apply make_bulk_ops_no_sleep|]. intros [|o ops].
  - apply emits_ret.
  - unfold store_write; emits_prim. reflexivity.
Qed.

Lemma pop_models_no_sleep (n : nat) : emits_in no_sleep (pop_models cfg n).
Proof.
  induction n as [|n IH]; simpl.
  - apply emits_ret.
  - apply emits_bind; [unfold queue_pop; emits_prim|]. intros d.
    apply emits_bind; [exact IH|]. intros; apply emits_ret.
Qed.

Lemma attempt_body_no_sleep (upd : bool) (n : nat) (kw : kwds) :
  emits_in no_sleep (attempt_body cfg st upd n kw).
Proof.
  unfold attempt_body. destruct (negb upd).
  - apply emits_bind; [apply pop_models_no_sleep|]. intros docs.
    unfold store_write; emits_prim. reflexivity.
  - apply make_bulk_update_no_sleep.
Qed.

Lemma log_exception_no_sleep (m : msg) : emits_in no_sleep (log_exception cfg m).
Proof. unfold log_exception; emits_prim. reflexivity. Qed.

Lemma log_info_no_sleep (m : msg) : emits_in no_sleep (log_info cfg m).
Proof. unfold log_info; emits_prim. reflexivity. Qed.

Lemma retry_loop_no_sleep fuel upd n kw na :
  forall att exc, emits_in no_sleep (retry_loop cfg st fuel upd n kw na att exc).
Proof.
  induction fuel as [|fuel IH]; intros att exc; simpl.
  - apply emits_ret.
  - destruct (att <? na).
    + apply emits_catch.
      * apply emits_bind; [apply attempt_body_no_sleep|]. intros; apply emits_ret.
      * intros e. apply emits_bind; [apply log_exception_no_sleep|]. intros; apply IH.
    + apply emits_ret.
Qed.

Lemma report_no_sleep n exc : emits_in no_sleep (report cfg n exc).
Proof.
  destruct exc as [|[e|]]; simpl.
  - apply emits_raise.
  - apply emits_raise.
  - apply emits_bind; [unfold get_count; emits_prim|]. intros c.
    apply emits_bind; [apply log_info_no_sleep|]. intros; apply emits_ret.
Qed.

Lemma flush_no_sleep upd n kw : emits_in no_sleep (flush cfg st upd n kw).
Proof.
  unfold flush. apply emits_bind; [apply retry_loop_no_sleep|].
  intros exc; apply report_no_sleep.
Qed.

Lemma do_update_no_sleep mbs upd kw : emits_in no_sleep (do_update cfg st mbs upd kw).
Proof.
  unfold do_update. apply emits_bind; [unfold get_queue; emits_prim|]. intros q.
  destruct (below _ _); [apply emits_ret | apply flush_no_sleep].
Qed.

(** *** Results of the retry loop and of [do_update] *)

Lemma retry_loop_result fuel upd n kw na :
  forall att exc (w : W), exc = Unbound \/ exc = Bound None ->
  fst (retry_loop cfg st fuel upd n kw na att exc w) = Ok Unbound \/
  fst (retry_loop cfg st fuel upd n kw na att exc w) = Ok (Bound None).
Proof.
  induction fuel as [|fuel IH]; intros att exc w Hexc; cbn [retry_loop].
  - destruct Hexc; subst; simpl; auto.
  - destruct (att <? na); [|destruct Hexc; subst; simpl; auto].
    unfold catch. rewrite bind_eq.
    destruct (attempt_body cfg st upd n kw w) as [[u|e] w1]; simpl; auto.
    apply IH; auto.
Qed.

Lemma flush_result upd n kw (w : W) :
  fst (flush cfg st upd n kw w) = Ok PyNone \/
  fst (flush cfg st upd n kw w) = Exc UnboundLocalError.
Proof.
  unfold flush. rewrite bind_eq.
  destruct (retry_loop_result (Z.to_nat (1 + n_retry cfg)) upd n kw (1 + n_retry cfg)
              0 (Bound None) w (or_intror eq_refl)) as [H|H];
  destruct (retry_loop cfg st _ upd n kw _ 0 (Bound None) w) as [r w1];
  simpl in H; subst r; simpl; auto.
Qed.

Lemma do_update_unfold mbs upd kw (w : W) :
  do_update cfg st mbs upd kw w =
  if below (length (queue w)) (resolve_min_batch_size cfg mbs)
  then (Ok (PyBool false), w)
  else flush cfg st (match upd with Some b => b | None => update cfg end)
             (length (queue w)) kw w.
Proof.
  unfold do_update, bind, get_queue. cbv beta iota.
  destruct (below _ _); reflexivity.
Qed.

(** *** Draining the deque *)

Lemma set_queue_twice q q' (w : W) : set_queue q (set_queue q' w) = set_queue q w.
Proof. reflexivity. Qed.

Lemma set_queue_same (w : W) : set_queue (queue w) w = w.
Proof. destruct w; reflexivity. Qed.

Lemma pop_models_all n :
  forall (w : W), length (queue w) = n ->
  pop_models cfg n w = (Ok (map (model cfg) (rev (queue w))), set_queue [] w).
Proof.
  induction n as [|n IH]; intros w Hn.
  - apply length_zero_iff_nil in Hn. rewrite <- (set_queue_same w) at 1.
    rewrite Hn. reflexivity.
  - cbn [pop_models]. rewrite bind_eq. unfold queue_pop.
    destruct (rev (queue w)) as [|d r] eqn:E.
    + apply (f_equal (@length doc)) in E. rewrite length_rev in E. simpl in E. lia.
    + rewrite bind_eq, IH.
      * simpl. rewrite rev_involutive. reflexivity.
      * simpl. apply (f_equal (@length doc)) in E. rewrite length_rev in E.
        simpl in E. rewrite length_rev. lia.
Qed.

Lemma make_bulk_ops_all n :
  forall kw acc (w : W), length (queue w) = n ->
  make_bulk_ops cfg n kw acc w =
  (Ok (acc ++ map (make_update_op cfg kw) (rev (queue w))), set_queue [] w).
Proof.
  induction n as [|n IH]; intros kw acc w Hn.
  - apply length_zero_iff_nil in Hn. rewrite <- (set_queue_same w) at 1.
    rewrite Hn. simpl. rewrite app_nil_r. reflexivity.
  - cbn [make_bulk_ops]. rewrite bind_eq. unfold get_queue. cbv beta iota.
    destruct (queue w) as [|x l] eqn:Eq; [discriminate|]. cbv beta iota.
    rewrite bind_eq. unfold queue_pop. rewrite Eq.
    destruct (rev (x :: l)) as [|d r] eqn:E.
    + apply (f_equal (@length doc)) in E. rewrite length_rev in E. discriminate.
    + rewrite IH.
      * simpl. rewrite rev_involutive, <- app_assoc. reflexivity.
      * simpl. apply (f_equal (@length doc)) in E. rewrite length_rev in E.
        simpl in E, Hn. rewrite length_rev. lia.
Qed.

Lemma make_bulk_update_all kw (w : W) :
  queue w <> [] ->
  make_bulk_update cfg st kw w =
  store_write st (EvBulkWrite (map (make_update_op cfg kw) (rev (queue w))) (bulk_write_args kw))
              (set_queue [] w).
Proof.
  intros Hq. unfold make_bulk_update. rewrite bind_eq. unfold get_queue. cbv beta iota.
  rewrite bind_eq, make_bulk_ops_all by reflexivity. simpl app.
  destruct (map (make_update_op cfg kw) (rev (queue w))) as [|o ops] eqn:E.
  - apply map_eq_nil in E. apply (f_equal (@rev doc)) in E.
    rewrite rev_involutive in E. contradiction.
  - reflexivity.
Qed.

Lemma make_bulk_update_empty kw (w : W) :
  queue w = [] -> make_bulk_update cfg st kw w = (Ok tt, w).
Proof. destruct w as [q c k t]; simpl; intros ->; reflexivity. Qed.

Lemma attempt_body_full upd kw (w : W) :
  queue w <> [] ->
  attempt_body cfg st upd (length (queue w)) kw w =
  store_write st (batch_event cfg upd kw (queue w)) (set_queue [] w).
Proof.
  intros Hq. unfold attempt_body, batch_event. destruct upd; cbv beta iota delta [negb].
  - apply make_bulk_update_all; exact Hq.
  - rewrite bind_eq, pop_models_all by reflexivity. reflexivity.
Qed.

Lemma attempt_body_empty upd n kw (w : W) :
  queue w = [] -> (1 <= n)%nat ->
  attempt_body cfg st upd n kw w = (if upd then Ok tt else Exc IndexError, w).
Proof.
  intros Hq Hn. destruct n as [|n]; [lia|].
  unfold attempt_body. destruct upd; cbv beta iota delta [negb].
  - apply make_bulk_update_empty; exact Hq.
  - cbn [pop_models]. rewrite !bind_eq. unfold queue_pop. rewrite Hq. reflexivity.
Qed.


Lemma retry_loop_empty fuel upd n kw na :
  forall att exc (w : W), queue w = [] -> (1 <= n)%nat ->
  exists t, snd (retry_loop cfg st fuel upd n kw na att exc w) =
            mkWorld [] (count w) (ncalls w) (trace w ++ t) /\ Forall log_only t.
Proof.
  induction fuel as [|fuel IH]; intros att exc w Hq Hn; cbn [retry_loop].
  - exists []. rewrite app_nil_r, (world_eta w) at 1. rewrite Hq. auto.
  - destruct (att <? na).
    + unfold catch. rewrite bind_eq, attempt_body_empty by assumption.
      destruct upd; cbv iota.
      * exists []. rewrite app_nil_r, (world_eta w) at 1. rewrite Hq. auto.
      * rewrite bind_eq. unfold log_exception. cbv beta iota.
        destruct (logger cfg).
        -- edestruct IH as [t [E F]]; [ | exact Hn | ].
           2:{ rewrite E. eexists; split; [simpl; rewrite <- app_assoc; reflexivity|].
               constructor; [reflexivity | exact F]. }
           simpl; exact Hq.
        -- edestruct IH as [t [E F]]; [exact Hq | exact Hn | ].
           rewrite E. eauto.
    + exists []. rewrite app_nil_r, (world_eta w) at 1. rewrite Hq. auto.
Qed.

Lemma report_logs n exc : emits_in log_only (report cfg n exc).
Proof.
  destruct exc as [|[e|]]; simpl.
  - apply emits_raise.
  - apply emits_raise.
  - apply emits_bind; [unfold get_count; emits_prim|]. intros c.
    apply emits_bind; [unfold log_info; emits_prim; reflexivity|].
    intros; apply emits_ret.
Qed.

(** A flush of a non-empty deque writes the batch once; everything else it
    emits is a log line, whatever the store answers. *)
Lemma flush_full upd kw (w : W) :
  queue w <> [] -> 0 <= n_retry cfg ->
  exists t, trace (snd (flush cfg st upd (length (queue w)) kw w)) =
            trace w ++ batch_event cfg upd kw (queue w) :: t /\ Forall log_only t.
Proof.
  intros Hq Hr. unfold flush. rewrite bind_eq.
  assert (Hn : (1 <= length (queue w))%nat)
    by (destruct (queue w); [contradiction | simpl; lia]).
  destruct (Z.to_nat (1 + n_retry cfg)) as [|k] eqn:Ek; [lia|].
  cbn [retry_loop].
  replace (0 <? 1 + n_retry cfg) with true by (symmetry; apply Z.ltb_lt; lia).
  unfold catch. rewrite bind_eq, attempt_body_full by exact Hq.
  unfold store_write at 1, set_queue. cbn [queue count ncalls trace].
  destruct (write_fails st (ncalls w)) as [x|]; cbv beta iota zeta.
  - rewrite bind_eq. unfold log_exception at 1. cbv beta iota.
    match goal with
    | |- context [retry_loop cfg st k ?u ?n ?kw' ?na ?a Unbound ?w2] =>
        destruct (retry_loop_empty k u n kw' na a Unbound w2) as [t' [E' F']];
        [destruct (logger cfg); reflexivity | exact Hn | ];
        destruct (retry_loop cfg st k u n kw' na a Unbound w2) as [r w3]
    end.
    simpl in E'. subst w3.
    destruct r as [ex|e].
    + match goal with
      | |- context [report cfg ?n ex ?w3] =>
          destruct (report_logs n ex w3) as [t'' [E'' F'']]; rewrite E''
      end.
      destruct (logger cfg); simpl.
      * eexists; split.
        -- rewrite <- !app_assoc. reflexivity.
        -- constructor; [reflexivity|]. apply Forall_app; auto.
      * eexists; split.
        -- rewrite <- !app_assoc. reflexivity.
        -- apply Forall_app; auto.
    + destruct (logger cfg); simpl.
      * eexists; split.
        -- rewrite <- !app_assoc. reflexivity.
        -- constructor; [reflexivity|]. exact F'.
      * eexists; split.
        -- rewrite <- !app_assoc. reflexivity.
        -- exact F'.
  - unfold ret at 1. cbv beta iota.
    match goal with
    | |- context [report cfg ?n ?ex ?w3] =>
        destruct (report_logs n ex w3) as [t'' [E'' F'']]; rewrite E''
    end.
    simpl. eexists; split.
    + rewrite <- app_assoc. reflexivity.
    + exact F''.
Qed.

Lemma below_false_nonempty n mbs :
  below n (resolve_min_batch_size cfg mbs) = false -> (1 <= n)%nat.
Proof.
  unfold resolve_min_batch_size, below.
  destruct mbs as [[m|]|]; [| discriminate |].
  - destruct (m <=? 0) eqn:E; [discriminate|].
    apply Z.leb_gt in E. intros H. apply Z.ltb_ge in H. lia.
  - destruct (batch_size cfg) as [b|]; [|discriminate].
    destruct (b <=? 0) eqn:E; [discriminate|].
    apply Z.leb_gt in E. intros H. apply Z.ltb_ge in H. lia.
Qed.

Lemma resolve_min_batch_size_spec mbs :
  resolve_min_batch_size cfg mbs = spec_min_batch_size mbs (batch_size cfg).
Proof.
  unfold resolve_min_batch_size, spec_min_batch_size.
  destruct mbs as [[m|]|]; [| reflexivity |].
  - destruct (Z.leb_spec m 0), (Z.ltb_spec 0 m); try reflexivity; lia.
  - destruct (batch_size cfg) as [b|]; [|reflexivity].
    destruct (Z.leb_spec b 0), (Z.ltb_spec 0 b); try reflexivity; lia.
Qed.

Lemma nonempty_of_length (w : W) : (1 <= length (queue w))%nat -> queue w <> [].
Proof. destruct (queue w); simpl; [lia | discriminate]. Qed.

(** ** The claims *)

(** C1 (retry exhaustion).  Claim: with a store that always fails, [R+1]
    attempts are made and the last store error is re-raised.  The code never
    re-raises a store error: [except Exception as exc] unbinds [exc] when the
    handler ends, so [if exc:] raises [UnboundLocalError] after a failed last
    attempt; whatever the store and settings, [do_update] never propagates a
    [StoreError]. *)
Theorem do_update_never_raises_store_error mbs upd kw (w : W) (e : err) :
  fst (do_update cfg st mbs upd kw w) <> Exc (StoreError e).
Proof.
  rewrite do_update_unfold. destruct (below _ _); [discriminate|].
  match goal with |- fst (flush cfg st ?u ?n kw w) <> _ =>
    destruct (flush_result u n kw w) as [H|H]; rewrite H; discriminate end.
Qed.

(** C2 (retries re-submit the batch).  Claim: every retry re-submits the
    full drained batch.  In the code the first attempt empties the deque, so
    in update mode a flush that meets its threshold issues exactly one
    [bulk_write], with the whole batch, and nothing else but log lines,
    whatever the store answers: a retry rebuilds its operations from the now
    empty deque and submits nothing. *)
Theorem update_mode_single_bulk_write mbs upd kw (w : W)
    (Hupd : match upd with Some b => b | None => update cfg end = true)
    (Hthr : below (length (queue w)) (resolve_min_batch_size cfg mbs) = false)
    (Hr : 0 <= n_retry cfg) :
  exists t,
    trace (snd (do_update cfg st mbs upd kw w)) =
    trace w ++ EvBulkWrite (map (make_update_op cfg kw) (rev (queue w))) (bulk_write_args kw) :: t /\
    Forall log_only t.
Proof.
  rewrite do_update_unfold, Hthr, Hupd.
  apply below_false_nonempty, nonempty_of_length in Hthr.
  exact (flush_full true kw w Hthr Hr).
Qed.

(** C3 (backoff).  Claim: a failed attempt followed by another one sleeps
    [backoff_time] seconds first.  [do_update] never sleeps: the events it
    appends to the trace never include a sleep, whatever [backoff_time]. *)
Theorem do_update_never_sleeps mbs upd kw (w : W) :
  exists t, trace (snd (do_update cfg st mbs upd kw w)) = trace w ++ t /\
            Forall (fun e => is_sleep e = false) t.
Proof. apply do_update_no_sleep. Qed.

(** C4 (return values), as amended.  [do_update] returns [False] exactly
    when the deque is below the effective minimal batch size, and in that
    case no flush is attempted: the whole state (deque, counter, store calls
    and trace of events) is left unchanged.  [persist] has no [return]: it
    returns [None] whether or not a flush happened, unless an exception
    propagates. *)
Theorem return_values d mbs upd kw (w : W) :
  (fst (do_update cfg st mbs upd kw w) = Ok (PyBool false) <->
   below (length (queue w)) (resolve_min_batch_size cfg mbs) = true) /\
  (below (length (queue w)) (resolve_min_batch_size cfg mbs) = true ->
   do_update cfg st mbs upd kw w = (Ok (PyBool false), w)) /\
  (fst (persist cfg st d mbs upd kw w) = Ok PyNone \/
   exists e, fst (persist cfg st d mbs upd kw w) = Exc e).
Proof.
  split; [|split].
  - rewrite do_update_unfold. destruct (below _ _); split; auto.
    + match goal with |- fst (flush cfg st ?u ?n kw w) = _ -> _ =>
        destruct (flush_result u n kw w) as [H|H]; rewrite H; discriminate end.
    + discriminate.
  - intros Hb. rewrite do_update_unfold, Hb. reflexivity.
  - unfold persist. cbv [bind inc queue_appendleft ret].
    destruct (do_update cfg st mbs upd kw _) as [[v|e] w']; simpl; eauto.
Qed.

(** C5 (finalize), as amended.  [finalize] is [do_update(min_batch_size=1)]:
    a non-empty deque is flushed whatever [batch_size], by the same [flush]
    (same retry loop) as a threshold-triggered flush; an empty deque makes no
    flush attempt and leaves the world unchanged. *)
Theorem finalize_spec (w : W) :
  finalize cfg st w =
  match queue w with
  | [] => (Ok PyNone, w)
  | _ :: _ =>
      match flush cfg st (update cfg) (length (queue w)) no_kwds w with
      | (Ok _, w') => (Ok PyNone, w')
      | (Exc e, w') => (Exc e, w')
      end
  end.
Proof.
  unfold finalize. rewrite bind_eq, do_update_unfold.
  change (resolve_min_batch_size cfg (Some (Fin 1))) with (Fin 1). unfold below.
  destruct (queue w) as [|d q] eqn:Eq.
  - reflexivity.
  - replace (Z.of_nat (length (d :: q)) <? 1) with false
      by (symmetry; apply Z.ltb_ge; simpl length; lia).
    destruct (flush cfg st (update cfg) (length (d :: q)) no_kwds w) as [[v|e] w'];
      reflexivity.
Qed.

(** C6 (threshold check).  With the effective minimal batch size resolved
    as the spec words it ([spec_min_batch_size]: the per-call value takes
    precedence over [batch_size], a size <= 0 is infinity), a deque shorter
    than it makes [do_update] return [False] and change nothing. *)
Theorem threshold_not_met_no_flush mbs upd kw (w : W)
    (Hbelow : below (length (queue w)) (spec_min_batch_size mbs (batch_size cfg)) = true) :
  do_update cfg st mbs upd kw w = (Ok (PyBool false), w).
Proof.
  rewrite do_update_unfold, resolve_min_batch_size_spec, Hbelow. reflexivity.
Qed.

(** C7 (order within a batch), as amended.  [persist] pushes on the left
    ([appendleft]) and the batch is built with [pop()] from the right, so the
    operations and model instances come in [rev] of the deque, oldest record
    first: a record pushed last is converted last. *)
Theorem batch_built_oldest_first kw (d : doc) (w : W) :
  make_bulk_ops cfg (length (queue w)) kw [] w =
    (Ok (map (make_update_op cfg kw) (rev (queue w))), set_queue [] w) /\
  pop_models cfg (length (queue w)) w =
    (Ok (map (model cfg) (rev (queue w))), set_queue [] w) /\
  make_bulk_ops cfg (S (length (queue w))) kw [] (snd (queue_appendleft (err:=err) d w)) =
    (Ok (map (make_update_op cfg kw) (rev (queue w)) ++ [make_update_op cfg kw d]),
     set_queue [] w).
Proof.
  split; [|split].
  - apply make_bulk_ops_all; reflexivity.
  - apply pop_models_all; reflexivity.
  - rewrite make_bulk_ops_all by reflexivity.
    simpl. rewrite map_app. reflexivity.
Qed.

(** C8 (pure-insert mode).  With [update] false and the threshold met, the
    flush builds one model instance per queued record ([N] of them) and makes
    exactly one store call, [insert] of those [N] documents; everything else
    it emits is a log line, so [bulk_write] is never called. *)
Theorem insert_mode_single_insert mbs upd kw (w : W)
    (Hupd : match upd with Some b => b | None => update cfg end = false)
    (Hthr : below (length (queue w)) (resolve_min_batch_size cfg mbs) = false)
    (Hr : 0 <= n_retry cfg) :
  length (map (model cfg) (rev (queue w))) = length (queue w) /\
  exists t,
    trace (snd (do_update cfg st mbs upd kw w)) =
    trace w ++ EvInsert (map (model cfg) (rev (queue w))) :: t /\
    Forall log_only t.
Proof.
  split; [rewrite length_map, length_rev; reflexivity|].
  rewrite do_update_unfold, Hthr, Hupd.
  apply below_false_nonempty, nonempty_of_length in Hthr.
  exact (flush_full false kw w Hthr Hr).
Qed.

(** C9 (drop_model_data with a mapping).  A mapping [m] is turned into the
    deletion [model.objects(__raw__=m).delete()], but the override has no
    [return]: the caller gets [None], not the deleted count. *)
Theorem drop_model_data_mapping (m : rawq) (w : W) :
  drop_model_data cfg st (Some (QMapping m)) w = (Ok PyNone, emit (EvDeleteRaw m) w).
Proof. reflexivity. Qed.

(** C10 (from_dict).  [persist] increments the counter, pushes
    [model.from_dict(doc, only_dict=True)] when the model defines [from_dict]
    and the document itself otherwise, then runs [do_update] on that deque. *)
Theorem persist_queues_transformed d mbs upd kw (w : W) :
  persist cfg st d mbs upd kw w =
  match do_update cfg st mbs upd kw
          (mkWorld ((match from_dict cfg with Some f => f d | None => d end) :: queue w)
                   (S (count w)) (ncalls w) (trace w)) with
  | (Ok _, w') => (Ok PyNone, w')
  | (Exc e, w') => (Exc e, w')
  end.
Proof.
  unfold persist. cbv [bind inc queue_appendleft set_queue ret]. cbn [queue count ncalls trace].
  destruct (do_update cfg st mbs upd kw _) as [[v|e] w']; reflexivity.
Qed.

(** *** Further properties of the code *)

Lemma report_world n exc (w : W) :
  exists t, snd (report cfg n exc w) = mkWorld (queue w) (count w) (ncalls w) (trace w ++ t) /\
            Forall log_only t.
Proof.
  destruct exc as [|[e|]]; simpl.
  - exists []. rewrite app_nil_r. apply (conj (world_eta w)). constructor.
  - exists []. rewrite app_nil_r. apply (conj (world_eta w)). constructor.
  - unfold log_info. destruct (logger cfg); simpl.
    + exists [EvLogInfo (MsgUpdated n (count w))]. split; [reflexivity|].
      constructor; [reflexivity | constructor].
    + exists []. rewrite app_nil_r. apply (conj (world_eta w)). constructor.
Qed.

(** The world after a flush of a non-empty deque: the deque is empty, one
    write call was made, the counter is untouched. *)
Lemma flush_world upd kw (w : W) :
  queue w <> [] -> 0 <= n_retry cfg ->
  exists t, snd (flush cfg st upd (length (queue w)) kw w) =
            mkWorld [] (count w) (S (ncalls w)) (trace w ++ batch_event cfg upd kw (queue w) :: t) /\
            Forall log_only t.
Proof.
  intros Hq Hr. unfold flush. rewrite bind_eq.
  assert (Hn : (1 <= length (queue w))%nat)
    by (destruct (queue w); [contradiction | simpl; lia]).
  destruct (Z.to_nat (1 + n_retry cfg)) as [|k] eqn:Ek; [lia|].
  cbn [retry_loop].
  replace (0 <? 1 + n_retry cfg) with true by (symmetry; apply Z.ltb_lt; lia).
  unfold catch. rewrite bind_eq, attempt_body_full by exact Hq.
  unfold store_write at 1, set_queue. cbn [queue count ncalls trace].
  destruct (write_fails st (ncalls w)) as [x|]; cbv beta iota zeta.
  - rewrite bind_eq. unfold log_exception at 1. cbv beta iota.
    match goal with
    | |- context [retry_loop cfg st k ?u ?n ?kw' ?na ?a Unbound ?w2] =>
        destruct (retry_loop_empty k u n kw' na a Unbound w2) as [t' [E' F']];
        [destruct (logger cfg); reflexivity | exact Hn | ];
        destruct (retry_loop cfg st k u n kw' na a Unbound w2) as [r w3]
    end.
    simpl in E'. subst w3.
    destruct r as [ex|e].
    + match goal with
      | |- context [report cfg ?n ex ?w3] =>
          destruct (report_world n ex w3) as [t'' [E'' F'']]; rewrite E''
      end.
      destruct (logger cfg); simpl.
      * eexists; split.
        -- rewrite <- !app_assoc. reflexivity.
        -- constructor; [reflexivity|]. apply Forall_app; auto.
      * eexists; split.
        -- rewrite <- !app_assoc. reflexivity.
        -- apply Forall_app; auto.
    + destruct (logger cfg); simpl.
      * eexists; split.
        -- rewrite <- !app_assoc. reflexivity.
        -- constructor; [reflexivity|]. exact F'.
      * eexists; split.
        -- rewrite <- !app_assoc. reflexivity.
        -- exact F'.
  - unfold ret at 1. cbv beta iota.
    match goal with
    | |- context [report cfg ?n ?ex ?w3] =>
        destruct (report_world n ex w3) as [t'' [E'' F'']]; rewrite E''
    end.
    simpl. eexists; split.
    + rewrite <- app_assoc. reflexivity.
    + exact F''.
Qed.

Lemma flush_ok_result upd kw (w : W) :
  (forall i, write_fails st i = None) -> queue w <> [] -> 0 <= n_retry cfg ->
  fst (flush cfg st upd (length (queue w)) kw w) = Ok PyNone.
Proof.
  intros Hst Hq Hr. unfold flush. rewrite bind_eq.
  destruct (Z.to_nat (1 + n_retry cfg)) as [|k] eqn:Ek; [lia|].
  cbn [retry_loop].
  replace (0 <? 1 + n_retry cfg) with true by (symmetry; apply Z.ltb_lt; lia).
  unfold catch. rewrite bind_eq, attempt_body_full by exact Hq.
  unfold store_write at 1, set_queue. cbn [queue count ncalls trace].
  rewrite Hst. reflexivity.
Qed.

Lemma flush_negative_retry upd n kw (w : W) :
  n_retry cfg < 0 ->
  flush cfg st upd n kw w =
  (Ok PyNone, if logger cfg then emit (EvLogInfo (MsgUpdated n (count w))) w else w).
Proof.
  intros Hr. unfold flush.
  replace (Z.to_nat (1 + n_retry cfg)) with 0%nat by lia.
  reflexivity.
Qed.

Lemma do_update_frame mbs upd kw (w : W) :
  count (snd (do_update cfg st mbs upd kw w)) = count w /\
  (ncalls (snd (do_update cfg st mbs upd kw w)) <= S (ncalls w))%nat.
Proof.
  rewrite do_update_unfold.
  destruct (below _ _) eqn:Hb; [simpl; lia|].
  destruct (Z.le_gt_cases 0 (n_retry cfg)) as [Hr|Hr].
  - apply below_false_nonempty, nonempty_of_length in Hb.
    destruct (flush_world (match upd with Some b => b | None => update cfg end) kw w Hb Hr)
      as [t [E _]].
    rewrite E. simpl. lia.
  - rewrite flush_negative_retry by lia. destruct (logger cfg); simpl; lia.
Qed.

Lemma persist_eq d mbs upd kw (w : W) :
  persist cfg st d mbs upd kw w =
  match do_update cfg st mbs upd kw
          (mkWorld (queued_doc cfg d :: queue w) (S (count w)) (ncalls w) (trace w)) with
  | (Ok _, w') => (Ok PyNone, w')
  | (Exc e, w') => (Exc e, w')
  end.
Proof.
  unfold persist, queued_doc. cbv [bind inc queue_appendleft set_queue ret].
  cbn [queue count ncalls trace].
  destruct (do_update cfg st mbs upd kw _) as [[v|e] w']; reflexivity.
Qed.

(** X1 ([make_bulk_update]).  On an empty deque no [bulk_write] is issued
    and nothing changes; otherwise the deque is emptied and one
    [bulk_write] carries one operation per record, oldest record first,
    with the caller's [bulk_write_kwds], or [{'ordered': False}] when none
    is given. *)
Theorem make_bulk_update_spec kw (w : W) :
  make_bulk_update cfg st kw w =
  match queue w with
  | [] => (Ok tt, w)
  | _ :: _ =>
      store_write st (EvBulkWrite (map (make_update_op cfg kw) (rev (queue w)))
                                  (bulk_write_args kw))
                  (set_queue [] w)
  end.
Proof.
  destruct (queue w) as [|d q] eqn:E.
  - apply make_bulk_update_empty; exact E.
  - rewrite make_bulk_update_all by congruence. rewrite E. reflexivity.
Qed.

(** X2 (a flush always empties the deque).  When the threshold is met and
    [n_retry >= 0], [do_update] leaves the deque empty and makes exactly one
    write call, whatever the store answers: the records of a failed batch
    are not put back.  The counter is untouched and the rest of the trace is
    log lines. *)
Theorem do_update_empties_deque mbs upd kw (w : W)
    (Hthr : below (length (queue w)) (resolve_min_batch_size cfg mbs) = false)
    (Hr : 0 <= n_retry cfg) :
  exists t,
    snd (do_update cfg st mbs upd kw w) =
    mkWorld [] (count w) (S (ncalls w))
            (trace w ++ batch_event cfg (match upd with Some b => b | None => update cfg end)
                                    kw (queue w) :: t) /\
    Forall log_only t.
Proof.
  rewrite do_update_unfold, Hthr.
  apply below_false_nonempty, nonempty_of_length in Hthr.
  apply flush_world; assumption.
Qed.

(** X3 (negative [n_retry]).  With [n_retry < 0] the loop
    [while attempt < 1 + n_retry] never runs: a flush that meets its
    threshold writes nothing, keeps the deque, logs "Updated n records" and
    returns [None]. *)
Theorem do_update_negative_retry mbs upd kw (w : W)
    (Hthr : below (length (queue w)) (resolve_min_batch_size cfg mbs) = false)
    (Hr : n_retry cfg < 0) :
  do_update cfg st mbs upd kw w =
  (Ok PyNone,
   if logger cfg then emit (EvLogInfo (MsgUpdated (length (queue w)) (count w))) w else w).
Proof.
  rewrite do_update_unfold, Hthr. apply flush_negative_retry; exact Hr.
Qed.

(** X4 (at most one write per call).  Whatever the settings and the store,
    one [do_update] call makes at most one write call and does not change
    the counter. *)
Theorem do_update_at_most_one_write mbs upd kw (w : W) :
  count (snd (do_update cfg st mbs upd kw w)) = count w /\
  (ncalls (snd (do_update cfg st mbs upd kw w)) <= S (ncalls w))%nat.
Proof. apply do_update_frame. Qed.

(** X5 (counter).  Every [persist] call increments the counter by exactly
    one, whether or not it flushes and even when the flush raises. *)
Theorem persist_counts_once d mbs upd kw (w : W) :
  count (snd (persist cfg st d mbs upd kw w)) = S (count w).
Proof.
  rewrite persist_eq.
  match goal with |- context [do_update cfg st mbs upd kw ?w1] =>
    destruct (do_update_frame mbs upd kw w1) as [Hc _];
    destruct (do_update cfg st mbs upd kw w1) as [[v|e] w'] end;
  simpl in *; exact Hc.
Qed.

Lemma resolve_configured_positive B :
  batch_size cfg = Some B -> 0 < B -> resolve_min_batch_size cfg None = Fin B.
Proof.
  intros HB HBpos. unfold resolve_min_batch_size. rewrite HB.
  replace (B <=? 0) with false by (symmetry; apply Z.leb_gt; lia). reflexivity.
Qed.

(** X6 (batching over a sequence of [persist] calls).  With
    [batch_size = B > 0], [n_retry >= 0], a store that accepts every write
    and a deque shorter than [B] to start with, persisting [N] documents
    makes [(q + N) / B] write calls and leaves [(q + N) mod B] documents
    queued, where [q] is the initial deque length; the counter grows by
    [N]. *)
Theorem persist_all_batches ds upd kw (w : W) (B : Z)
    (HB : batch_size cfg = Some B) (HBpos : 0 < B) (Hr : 0 <= n_retry cfg)
    (Hst : forall i, write_fails st i = None)
    (Hq : (length (queue w) < Z.to_nat B)%nat) :
  fst (persist_all cfg st ds None upd kw w) = Ok tt /\
  length (queue (snd (persist_all cfg st ds None upd kw w))) =
    ((length (queue w) + length ds) mod Z.to_nat B)%nat /\
  ncalls (snd (persist_all cfg st ds None upd kw w)) =
    (ncalls w + (length (queue w) + length ds) / Z.to_nat B)%nat /\
  count (snd (persist_all cfg st ds None upd kw w)) = (count w + length ds)%nat.
Proof.
  revert w Hq. induction ds as [|d ds IH]; intros w Hq.
  - simpl. rewrite Nat.add_0_r, Nat.mod_small, Nat.div_small by exact Hq.
    repeat split; lia.
  - cbn [persist_all]. rewrite bind_eq, persist_eq, do_update_unfold.
    rewrite (resolve_configured_positive B HB HBpos).
    cbn [queue]. unfold below.
    destruct (Z.ltb_spec (Z.of_nat (length (queued_doc cfg d :: queue w))) B) as [Hlt|Hge].
    + destruct (IH (mkWorld (queued_doc cfg d :: queue w) (S (count w)) (ncalls w) (trace w)))
        as [H1 [H2 [H3 H4]]]; [simpl in *; lia|].
      simpl in H1, H2, H3, H4 |- *.
      replace (length (queue w) + S (length ds))%nat
        with (S (length (queue w)) + length ds)%nat by lia.
      rewrite H1, H2, H3, H4. repeat split; lia.
    + set (w1 := mkWorld (queued_doc cfg d :: queue w) (S (count w)) (ncalls w) (trace w)).
      assert (Hne : queue w1 <> []) by (simpl; discriminate).
      pose proof (flush_ok_result (match upd with Some b => b | None => update cfg end)
                    kw w1 Hst Hne Hr) as Hok.
      destruct (flush_world (match upd with Some b => b | None => update cfg end)
                  kw w1 Hne Hr) as [t [E _]].
      change (queued_doc cfg d :: queue w) with (queue w1).
      destruct (flush cfg st _ (length (queue w1)) kw w1) as [r w2].
      simpl in Hok, E. subst r w2.
      destruct (IH (mkWorld [] (count w1) (S (ncalls w1))
                    (trace w1 ++ batch_event cfg (match upd with Some b => b | None => update cfg end)
                                   kw (queue w1) :: t)))
        as [H1 [H2 [H3 H4]]]; [simpl; lia|].
      simpl in H1, H2, H3, H4 |- *.
      rewrite H1, H2, H3, H4.
      simpl in Hge.
      assert (Hb : (S (length (queue w)) = Z.to_nat B)%nat) by lia.
      replace (length (queue w) + S (length ds))%nat
        with (length ds + 1 * Z.to_nat B)%nat by lia.
      rewrite Nat.Div0.mod_add, Nat.div_add by lia.
      repeat split; lia.
Qed.

(** X7 (unbounded batches).  With [batch_size] [None] or [<= 0] and no
    per-call size, [persist] never writes: after persisting [ds] the deque
    holds the queued documents, newest on the left, in front of what was
    there, and nothing else but the counter changed. *)
Theorem persist_all_unbounded ds upd kw (w : W)
    (HB : match batch_size cfg with None => True | Some b => b <= 0 end) :
  persist_all cfg st ds None upd kw w =
  (Ok tt, mkWorld (rev (map (queued_doc cfg) ds) ++ queue w) (count w + length ds)%nat
                  (ncalls w) (trace w)).
Proof.
  assert (Hinf : resolve_min_batch_size cfg None = Inf).
  { unfold resolve_min_batch_size. destruct (batch_size cfg) as [b|]; [|reflexivity].
    replace (b <=? 0) with true by (symmetry; apply Z.leb_le; exact HB). reflexivity. }
  revert w. induction ds as [|d ds IH]; intros w.
  - simpl. rewrite Nat.add_0_r, <- world_eta. reflexivity.
  - cbn [persist_all]. rewrite bind_eq, persist_eq, do_update_unfold, Hinf.
    cbn [below]. rewrite IH. simpl.
    rewrite <- app_assoc. simpl. f_equal. f_equal. lia.
Qed.

(** X8 ([finalize] flushes what is left).  With a store that accepts every
    write and [n_retry >= 0], [finalize] on a non-empty deque returns [None]
    after one write call that submits every queued document (oldest first);
    the deque is left empty and only log lines follow the write. *)
Theorem finalize_flushes_remainder (w : W)
    (Hst : forall i, write_fails st i = None) (Hr : 0 <= n_retry cfg)
    (Hq : queue w <> []) :
  fst (finalize cfg st w) = Ok PyNone /\
  exists t, snd (finalize cfg st w) =
            mkWorld [] (count w) (S (ncalls w))
                    (trace w ++ batch_event cfg (update cfg) no_kwds (queue w) :: t) /\
            Forall log_only t.
Proof.
  unfold finalize. rewrite bind_eq, do_update_unfold.
  change (resolve_min_batch_size cfg (Some (Fin 1))) with (Fin 1).
  assert (Hb : below (length (queue w)) (Fin 1) = false).
  { cbn [below]. apply Z.ltb_ge. destruct (queue w); [contradiction|]. simpl. lia. }
  rewrite Hb.
  pose proof (flush_ok_result (update cfg) no_kwds w Hst Hq Hr) as Hok.
  destruct (flush_world (update cfg) no_kwds w Hq Hr) as [t [E Ht]].
  destruct (flush cfg st (update cfg) (length (queue w)) no_kwds w) as [r w2].
  simpl in Hok, E. subst r w2. simpl. split; [reflexivity|]. exists t; auto.
Qed.

Lemma map_seq_succ {A} (f : Z -> A) (a : Z) (k : nat) :
  map (fun i => f (a + Z.of_nat i)) (seq 1 (S k)) =
  f (a + 1) :: map (fun i => f (a + 1 + Z.of_nat i)) (seq 1 k).
Proof.
  cbn [seq map]. f_equal. rewrite <- seq_shift, map_map.
  apply map_ext. intros i. f_equal. lia.
Qed.

(** In insert mode every attempt on an empty deque raises [IndexError] in
    [pop] before any write: the loop logs one failure per attempt left. *)
Lemma retry_loop_insert_empty n kw na k :
  forall att (w : W), queue w = [] -> (1 <= n)%nat -> att + Z.of_nat k = na ->
  retry_loop cfg st k false n kw na att Unbound w =
  (Ok Unbound,
   mkWorld [] (count w) (ncalls w)
     (trace w ++ if logger cfg
                 then map (fun i => EvLogException (failure_msg na (att + Z.of_nat i))) (seq 1 k)
                 else [])).
Proof.
  induction k as [|k IH]; intros att w Hq Hn Ha.
  - cbn [retry_loop seq map]. unfold ret.
    rewrite (world_eta w) at 1. rewrite Hq. destruct (logger cfg); rewrite app_nil_r; reflexivity.
  - cbn [retry_loop]. replace (att <? na) with true by (symmetry; apply Z.ltb_lt; lia).
    unfold catch. rewrite bind_eq, attempt_body_empty by assumption. cbv beta iota.
    rewrite bind_eq. unfold log_exception. cbv beta iota.
    pose proof (map_seq_succ (fun z => @EvLogException filt updoc inst rawq kwv (failure_msg na z))
                  att k) as E.
    cbv beta in E. rewrite E.
    destruct (logger cfg) eqn:Hl.
    + rewrite IH by (simpl; auto; lia). simpl.
      rewrite <- app_assoc. reflexivity.
    + rewrite IH by (auto; lia). reflexivity.
Qed.

(** X9 (insert mode, failed write).  In insert mode with [n_retry >= 0], if
    the write of a due batch raises, the whole deque has already been popped,
    so every retry fails with [IndexError] without writing: [do_update]
    makes exactly one write call, logs one failure per attempt and ends by
    raising [UnboundLocalError] (the [exc] of the handler is unbound), with
    the deque empty and the batch lost. *)
Theorem insert_mode_failed_write_raises mbs upd kw (w : W) x
    (Hupd : match upd with Some b => b | None => update cfg end = false)
    (Hthr : below (length (queue w)) (resolve_min_batch_size cfg mbs) = false)
    (Hr : 0 <= n_retry cfg)
    (Hst : write_fails st (ncalls w) = Some x) :
  do_update cfg st mbs upd kw w =
  (Exc UnboundLocalError,
   mkWorld [] (count w) (S (ncalls w))
     (trace w ++ EvInsert (map (model cfg) (rev (queue w)))
              :: if logger cfg
                 then map (fun i => EvLogException (failure_msg (1 + n_retry cfg) (Z.of_nat i)))
                          (seq 1 (Z.to_nat (1 + n_retry cfg)))
                 else [])).
Proof.
  pose proof (below_false_nonempty _ _ Hthr) as Hn.
  rewrite do_update_unfold, Hthr, Hupd. unfold flush. rewrite bind_eq.
  assert (Hna : Z.of_nat (Z.to_nat (1 + n_retry cfg)) = 1 + n_retry cfg)
    by (apply Z2Nat.id; lia).
  destruct (Z.to_nat (1 + n_retry cfg)) as [|k] eqn:Ek; [lia|].
  cbn [retry_loop]. replace (0 <? 1 + n_retry cfg) with true by (symmetry; apply Z.ltb_lt; lia).
  unfold catch. rewrite bind_eq, attempt_body_full by (apply nonempty_of_length; exact Hn).
  unfold store_write at 1, set_queue. cbn [queue count ncalls trace]. rewrite Hst.
  unfold batch_event. cbv beta iota delta [negb].
  rewrite bind_eq. unfold log_exception. cbv beta iota.
  pose proof (map_seq_succ (fun z => @EvLogException filt updoc inst rawq kwv
                                (failure_msg (1 + n_retry cfg) z)) 0 k) as E.
  cbv beta in E.
  change (fun i => @EvLogException filt updoc inst rawq kwv
                     (failure_msg (1 + n_retry cfg) (0 + Z.of_nat i)))
    with (fun i => @EvLogException filt updoc inst rawq kwv
                     (failure_msg (1 + n_retry cfg) (Z.of_nat i))) in E.
  rewrite E.
  destruct (logger cfg) eqn:Hl.
  - rewrite retry_loop_insert_empty by (try reflexivity; lia). rewrite Hl. simpl.
    rewrite <- !app_assoc. reflexivity.
  - rewrite retry_loop_insert_empty by (try reflexivity; lia). rewrite Hl. simpl.
    rewrite app_nil_r. reflexivity.
Qed.

(** X10 (update mode, failed write).  In update mode with [n_retry >= 1],
    if the bulk write of a due batch raises, the deque has already been
    drained, so the second attempt has nothing to write and succeeds:
    [do_update] makes one write call, logs the failure and then reports the
    lost batch as updated, returning [None]. *)
Theorem update_mode_failed_write_reported mbs upd kw (w : W) x
    (Hupd : match upd with Some b => b | None => update cfg end = true)
    (Hthr : below (length (queue w)) (resolve_min_batch_size cfg mbs) = false)
    (Hr : 1 <= n_retry cfg)
    (Hst : write_fails st (ncalls w) = Some x) :
  do_update cfg st mbs upd kw w =
  (Ok PyNone,
   mkWorld [] (count w) (S (ncalls w))
     (trace w ++ EvBulkWrite (map (make_update_op cfg kw) (rev (queue w))) (bulk_write_args kw)
              :: if logger cfg
                 then [EvLogException (MsgFailedRetrying 1 (n_retry cfg));
                       EvLogInfo (MsgUpdated (length (queue w)) (count w))]
                 else [])).
Proof.
  pose proof (below_false_nonempty _ _ Hthr) as Hn.
  rewrite do_update_unfold, Hthr, Hupd. unfold flush. rewrite bind_eq.
  destruct (Z.to_nat (1 + n_retry cfg)) as [|[|k]] eqn:Ek; [lia|lia|].
  cbn [retry_loop]. replace (0 <? 1 + n_retry cfg) with true by (symmetry; apply Z.ltb_lt; lia).
  unfold catch. rewrite bind_eq, attempt_body_full by (apply nonempty_of_length; exact Hn).
  unfold store_write at 1, set_queue. cbn [queue count ncalls trace]. rewrite Hst.
  unfold batch_event. cbv beta iota delta [negb].
  rewrite bind_eq. unfold log_exception. cbv beta iota.
  replace (0 + 1 <? 1 + n_retry cfg) with true by (symmetry; apply Z.ltb_lt; lia).
  assert (Hm : failure_msg (1 + n_retry cfg) (0 + 1) = MsgFailedRetrying 1 (n_retry cfg)).
  { unfold failure_msg.
    replace (1 + n_retry cfg =? 1) with false by (symmetry; apply Z.eqb_neq; lia).
    replace (0 <? 1 + n_retry cfg - (0 + 1)) with true by (symmetry; apply Z.ltb_lt; lia).
    f_equal. lia. }
  rewrite Hm.
  destruct (logger cfg) eqn:Hl; cbn [emit queue count ncalls trace];
    (rewrite bind_eq, attempt_body_empty by (simpl; auto; lia)); cbv beta iota;
    unfold ret, report, get_count, log_info; rewrite bind_eq; cbv beta iota;
    rewrite bind_eq; rewrite Hl; cbv beta iota; simpl.
  - unfold ret, emit. cbn [queue count ncalls trace]. rewrite <- !app_assoc. reflexivity.
  - reflexivity.
Qed.

Lemma string_app_assoc (a b c : string) : (a ++ (b ++ c))%string = ((a ++ b) ++ c)%string.
Proof. induction a as [|x a IH]; simpl; [reflexivity | rewrite IH; reflexivity]. Qed.

Lemma string_app_cancel_l (p x y : string) : (p ++ x)%string = (p ++ y)%string -> x = y.
Proof. induction p as [|a p IH]; simpl; [auto | intros H; injection H; auto]. Qed.

(** Splitting at the first occurrence of a separator absent from the prefix. *)
Lemma string_app_sep_inj (c : Ascii.ascii) (s1 s2 t1 t2 : string) :
  has_char c s1 = false -> has_char c s2 = false ->
  (s1 ++ String c t1)%string = (s2 ++ String c t2)%string -> s1 = s2 /\ t1 = t2.
Proof.
  revert s2. induction s1 as [|a s1 IH]; intros [|b s2] H1 H2 E; simpl in *.
  - injection E; auto.
  - injection E as Ec _. subst b. rewrite Ascii.eqb_refl in H2. discriminate.
  - injection E as Ec _. subst a. rewrite Ascii.eqb_refl in H1. discriminate.
  - apply orb_false_elim in H1 as [_ H1]. apply orb_false_elim in H2 as [_ H2].
    injection E as Ec E. subst b. destruct (IH s2 H1 H2 E) as [-> ->]. auto.
Qed.

(** X11 ([init] URI, injectivity).  When the user name and the host contain
    no [':'], the password no ['@'] and the port no ['/'], the URI that
    [init] connects with determines all five of user, password, host, port
    and database. *)
Theorem init_uri_injective u1 p1 h1 po1 d1 a1 e1 x1 u2 p2 h2 po2 d2 a2 e2 x2
    (Hu1 : has_char ":"%char u1 = false) (Hu2 : has_char ":"%char u2 = false)
    (Hp1 : has_char "@"%char p1 = false) (Hp2 : has_char "@"%char p2 = false)
    (Hh1 : has_char ":"%char h1 = false) (Hh2 : has_char ":"%char h2 = false)
    (Hpo1 : has_char "/"%char po1 = false) (Hpo2 : has_char "/"%char po2 = false)
    (E : fst (init u1 p1 h1 po1 d1 a1 e1 x1) = fst (init u2 p2 h2 po2 d2 a2 e2 x2)) :
  u1 = u2 /\ p1 = p2 /\ h1 = h2 /\ po1 = po2 /\ d1 = d2.
Proof.
  unfold init, mongo_uri_format in E. cbn [fst] in E.
  apply string_app_cancel_l in E. cbn [String.append] in E.
  destruct (string_app_sep_inj _ _ _ _ _ Hu1 Hu2 E) as [-> E1].
  destruct (string_app_sep_inj _ _ _ _ _ Hp1 Hp2 E1) as [-> E2].
  destruct (string_app_sep_inj _ _ _ _ _ Hh1 Hh2 E2) as [-> E3].
  destruct (string_app_sep_inj _ _ _ _ _ Hpo1 Hpo2 E3) as [-> ->].
  auto.
Qed.

(** X12 ([init] URI, no escaping).  The components are inserted into the URI
    unescaped, so a password [p ++ "@" ++ x] with host [h] gives the same
    URI as the password [p] with host [x ++ "@" ++ h]: [init] connects to
    the same place with the same credentials text for both. *)
Theorem init_uri_unescaped u p x h po d a e hd :
  fst (init u (p ++ "@" ++ x) h po d a e hd) = fst (init u p (x ++ "@" ++ h) po d a e hd).
Proof.
  unfold init, mongo_uri_format. cbn [fst].
  rewrite <- !string_app_assoc. reflexivity.
Qed.

End Proofs.

(** ** Concrete instances of the theorems, and counterexamples *)

Import Concrete.

(** C2 at a concrete input: two queued records, one retry, the first
    [bulk_write] fails; the store sees the batch once. *)
Lemma update_mode_single_bulk_write_witness :
  true = true /\
  below 2 (resolve_min_batch_size (cfg0 (Some 2) 1 true 0) None) = false /\
  0 <= 1 /\
  exists t,
    trace (snd (do_update (cfg0 (Some 2) 1 true 0) st_fail_first None None no_kwds w12)) =
    trace w12 ++ EvBulkWrite (map (make_update_op (cfg0 (Some 2) 1 true 0) no_kwds)
                                  (rev (queue w12))) (bulk_write_args no_kwds) :: t /\
    Forall log_only t.
Proof.
  split; [reflexivity|]. split; [reflexivity|]. split; [lia|].
  apply (update_mode_single_bulk_write (cfg0 (Some 2) 1 true 0) st_fail_first None None
           no_kwds w12); [reflexivity | reflexivity | simpl; lia].
Defined.

(** C6 at a concrete input: two queued records, [batch_size = 3]. *)
Lemma threshold_not_met_no_flush_witness :
  below 2 (spec_min_batch_size None (Some 3)) = true /\
  do_update (cfg0 (Some 3) 0 true 0) st_ok None None no_kwds w12 = (Ok (PyBool false), w12).
Proof.
  split; [reflexivity|].
  apply (threshold_not_met_no_flush (cfg0 (Some 3) 0 true 0) st_ok None None no_kwds w12).
  reflexivity.
Defined.

(** C8 at a concrete input: insert mode, two retries, a store that always
    fails: still a single [insert] of the two documents. *)
Lemma insert_mode_single_insert_witness :
  false = false /\
  below 2 (resolve_min_batch_size (cfg0 (Some 2) 2 false 0) None) = false /\
  0 <= 2 /\
  (length (map (model (cfg0 (Some 2) 2 false 0)) (rev (queue w12))) = length (queue w12) /\
   exists t,
     trace (snd (do_update (cfg0 (Some 2) 2 false 0) st_fail None None no_kwds w12)) =
     trace w12 ++ EvInsert (map (model (cfg0 (Some 2) 2 false 0)) (rev (queue w12))) :: t /\
     Forall log_only t).
Proof.
  split; [reflexivity|]. split; [reflexivity|]. split; [lia|].
  apply (insert_mode_single_insert (cfg0 (Some 2) 2 false 0) st_fail None None no_kwds w12);
    [reflexivity | reflexivity | simpl; lia].
Defined.

(** C4: [persist] returns [None], and so does [do_update] after a
    successful flush: no boolean tells that a flush occurred. *)
Lemma return_values_counterexample :
  fst (persist_1_2 (cfg0 (Some 2) 0 true 0) st_ok) = Ok PyNone /\
  do_update (cfg0 (Some 2) 0 true 0) st_ok None None no_kwds w12 =
  (Ok PyNone,
   mkWorld [] 2 1 [EvBulkWrite [UpdateOne 1%nat 1%nat false []; UpdateOne 2%nat 2%nat false []]
                               [("ordered"%string, KwBool false)];
                   EvLogInfo (MsgUpdated 2 2)]).
Proof. split; vm_compute; reflexivity. Qed.

(** C5: on an empty deque [finalize] makes no flush attempt: [do_update]
    stops at the threshold check and nothing is written. *)
Lemma finalize_counterexample :
  do_update (cfg0 (Some 2) 0 true 0) st_ok (Some (Fin 1)) None no_kwds w0 =
    (Ok (PyBool false), w0) /\
  finalize (cfg0 (Some 2) 0 true 0) st_ok w0 = (Ok PyNone, w0).
Proof. split; vm_compute; reflexivity. Qed.

(** C7: records 1 then 2 persisted with [batch_size = 2]: the bulk write
    starts with the operation of record 1, the one queued first. *)
Lemma order_counterexample :
  persist_1_2 (cfg0 (Some 2) 0 true 0) st_ok =
  (Ok PyNone,
   mkWorld [] 2 1 [EvBulkWrite [UpdateOne 1%nat 1%nat false []; UpdateOne 2%nat 2%nat false []]
                               [("ordered"%string, KwBool false)];
                   EvLogInfo (MsgUpdated 2 2)]).
Proof. vm_compute. reflexivity. Qed.

(** C1 at its failing input: [n_retry = 0], one record, a store that
    always fails: the caller gets [UnboundLocalError], not [StoreError 7];
    with [n_retry = 1] the retry finds an empty deque and reports success. *)
Lemma retry_exhaustion_failing_input :
  do_update (cfg0 (Some 1) 0 true 0) st_fail None None no_kwds (mkWorld [1%nat] 1 0 []) =
  (Exc UnboundLocalError,
   mkWorld [] 1 1 [EvBulkWrite [UpdateOne 1%nat 1%nat false []]
                               [("ordered"%string, KwBool false)];
                   EvLogException MsgFailed]) /\
  do_update (cfg0 (Some 1) 1 true 0) st_fail None None no_kwds (mkWorld [1%nat] 1 0 []) =
  (Ok PyNone,
   mkWorld [] 1 1 [EvBulkWrite [UpdateOne 1%nat 1%nat false []]
                               [("ordered"%string, KwBool false)];
                   EvLogException (MsgFailedRetrying 1 1); EvLogInfo (MsgUpdated 1 1)]).
Proof. split; vm_compute; reflexivity. Qed.

(** C3 at its failing input: [backoff_time = 1], one retry after a failed
    [bulk_write]: no sleep between the attempts. *)
Lemma backoff_failing_input :
  do_update (cfg0 (Some 2) 1 true 1) st_fail_first None None no_kwds w12 =
  (Ok PyNone,
   mkWorld [] 2 1 [EvBulkWrite [UpdateOne 1%nat 1%nat false []; UpdateOne 2%nat 2%nat false []]
                               [("ordered"%string, KwBool false)];
                   EvLogException (MsgFailedRetrying 1 1); EvLogInfo (MsgUpdated 2 2)]).
Proof. vm_compute. reflexivity. Qed.

(** The caller's [bulk_write_kwds] reach [bulk_write] and the other keyword
    arguments of [do_update] reach [UpdateOne]. *)
Lemma bulk_write_kwds_passed :
  do_update (cfg0 (Some 1) 0 true 0) st_ok None None
            (mkKwds (Some [("ordered"%string, KwBool true)]) None None
                    [("hint"%string, KwObj 5%nat)])
            (mkWorld [1%nat] 1 0 []) =
  (Ok PyNone,
   mkWorld [] 1 1 [EvBulkWrite [UpdateOne 1%nat 1%nat false [("hint"%string, KwObj 5%nat)]]
                               [("ordered"%string, KwBool true)];
                   EvLogInfo (MsgUpdated 1 1)]).
Proof. vm_compute. reflexivity. Qed.

(** X2 at a concrete input: two queued records, one retry, the first write
    fails: the deque is still emptied by one write call. *)
Lemma do_update_empties_deque_witness :
  below 2 (resolve_min_batch_size (cfg0 (Some 2) 1 true 0) None) = false /\
  0 <= 1 /\
  exists t,
    snd (do_update (cfg0 (Some 2) 1 true 0) st_fail_first None None no_kwds w12) =
    mkWorld [] (count w12) (S (ncalls w12))
            (trace w12 ++ batch_event (cfg0 (Some 2) 1 true 0) true no_kwds (queue w12) :: t) /\
    Forall log_only t.
Proof.
  split; [reflexivity|]. split; [lia|].
  apply (do_update_empties_deque (cfg0 (Some 2) 1 true 0) st_fail_first None None no_kwds w12);
    [reflexivity | simpl; lia].
Defined.

(** X3 at a concrete input: [n_retry = -1], the threshold met. *)
Lemma do_update_negative_retry_witness :
  below 2 (resolve_min_batch_size (cfg0 (Some 2) (-1) true 0) None) = false /\
  -1 < 0 /\
  do_update (cfg0 (Some 2) (-1) true 0) st_ok None None no_kwds w12 =
  (Ok PyNone, if logger (cfg0 (Some 2) (-1) true 0)
              then emit (EvLogInfo (MsgUpdated (length (queue w12)) (count w12))) w12
              else w12).
Proof.
  split; [reflexivity|]. split; [lia|].
  apply (do_update_negative_retry (cfg0 (Some 2) (-1) true 0) st_ok None None no_kwds w12);
    [reflexivity | simpl; lia].
Defined.

(** X6 at a concrete input: [batch_size = 2], three documents from an empty
    deque: one write, one document left. *)
Lemma persist_all_batches_witness :
  batch_size (cfg0 (Some 2) 0 true 0) = Some 2 /\ 0 < 2 /\ 0 <= 0 /\
  (forall i, write_fails st_ok i = None) /\ (length (queue w0) < Z.to_nat 2)%nat /\
  fst (persist_all (cfg0 (Some 2) 0 true 0) st_ok [1; 2; 3]%nat None None no_kwds w0) = Ok tt /\
  length (queue (snd (persist_all (cfg0 (Some 2) 0 true 0) st_ok [1; 2; 3]%nat None None no_kwds w0))) =
    ((length (queue w0) + length [1; 2; 3]%nat) mod Z.to_nat 2)%nat /\
  ncalls (snd (persist_all (cfg0 (Some 2) 0 true 0) st_ok [1; 2; 3]%nat None None no_kwds w0)) =
    (ncalls w0 + (length (queue w0) + length [1; 2; 3]%nat) / Z.to_nat 2)%nat /\
  count (snd (persist_all (cfg0 (Some 2) 0 true 0) st_ok [1; 2; 3]%nat None None no_kwds w0)) =
    (count w0 + length [1; 2; 3]%nat)%nat.
Proof.
  split; [reflexivity|]. split; [lia|]. split; [lia|].
  split; [intros i; reflexivity|]. split; [simpl; lia|].
  apply (persist_all_batches (cfg0 (Some 2) 0 true 0) st_ok [1; 2; 3]%nat None no_kwds w0 2);
    [reflexivity | lia | simpl; lia | intros i; reflexivity | simpl; lia].
Defined.

(** X7 at a concrete input: no [batch_size], a store that would fail every
    write: nothing is written. *)
Lemma persist_all_unbounded_witness :
  True /\
  persist_all (cfg0 None 0 true 0) st_fail [1; 2]%nat None None no_kwds w0 =
  (Ok tt, mkWorld (rev (map (queued_doc (cfg0 None 0 true 0)) [1; 2]%nat) ++ queue w0)
                  (count w0 + length [1; 2]%nat)%nat (ncalls w0) (trace w0)).
Proof.
  split; [exact I|].
  apply (persist_all_unbounded (cfg0 None 0 true 0) st_fail [1; 2]%nat None no_kwds w0).
  exact I.
Defined.

(** X8 at a concrete input: two queued records, [batch_size = 5]. *)
Lemma finalize_flushes_remainder_witness :
  (forall i, write_fails st_ok i = None) /\ 0 <= 0 /\ queue w12 <> [] /\
  fst (finalize (cfg0 (Some 5) 0 true 0) st_ok w12) = Ok PyNone /\
  exists t, snd (finalize (cfg0 (Some 5) 0 true 0) st_ok w12) =
            mkWorld [] (count w12) (S (ncalls w12))
                    (trace w12 ++ batch_event (cfg0 (Some 5) 0 true 0)
                                    (update (cfg0 (Some 5) 0 true 0)) no_kwds (queue w12) :: t) /\
            Forall log_only t.
Proof.
  split; [intros i; reflexivity|]. split; [lia|]. split; [discriminate|].
  apply (finalize_flushes_remainder (cfg0 (Some 5) 0 true 0) st_ok w12);
    [intros i; reflexivity | simpl; lia | discriminate].
Defined.

(** X9 at a concrete input: insert mode, two retries, every write fails. *)
Lemma insert_mode_failed_write_raises_witness :
  update (cfg0 (Some 2) 2 false 0) = false /\
  below 2 (resolve_min_batch_size (cfg0 (Some 2) 2 false 0) None) = false /\
  0 <= 2 /\ write_fails st_fail (ncalls w12) = Some 7%nat /\
  do_update (cfg0 (Some 2) 2 false 0) st_fail None None no_kwds w12 =
  (Exc UnboundLocalError,
   mkWorld [] (count w12) (S (ncalls w12))
     (trace w12 ++ EvInsert (map (model (cfg0 (Some 2) 2 false 0)) (rev (queue w12)))
              :: if logger (cfg0 (Some 2) 2 false 0)
                 then map (fun i => EvLogException
                                      (failure_msg (1 + n_retry (cfg0 (Some 2) 2 false 0)) (Z.of_nat i)))
                          (seq 1 (Z.to_nat (1 + n_retry (cfg0 (Some 2) 2 false 0))))
                 else [])).
Proof.
  split; [reflexivity|]. split; [reflexivity|]. split; [lia|]. split; [reflexivity|].
  apply (insert_mode_failed_write_raises (cfg0 (Some 2) 2 false 0) st_fail None None no_kwds w12 7%nat);
    [reflexivity | reflexivity | simpl; lia | reflexivity].
Defined.

(** X10 at a concrete input: update mode, one retry, the first write fails. *)
Lemma update_mode_failed_write_reported_witness :
  update (cfg0 (Some 2) 1 true 0) = true /\
  below 2 (resolve_min_batch_size (cfg0 (Some 2) 1 true 0) None) = false /\
  1 <= 1 /\ write_fails st_fail_first (ncalls w12) = Some 7%nat /\
  do_update (cfg0 (Some 2) 1 true 0) st_fail_first None None no_kwds w12 =
  (Ok PyNone,
   mkWorld [] (count w12) (S (ncalls w12))
     (trace w12 ++ EvBulkWrite (map (make_update_op (cfg0 (Some 2) 1 true 0) no_kwds) (rev (queue w12))) (bulk_write_args no_kwds)
              :: if logger (cfg0 (Some 2) 1 true 0)
                 then [EvLogException (MsgFailedRetrying 1 (n_retry (cfg0 (Some 2) 1 true 0)));
                       EvLogInfo (MsgUpdated (length (queue w12)) (count w12))]
                 else [])).
Proof.
  split; [reflexivity|]. split; [reflexivity|]. split; [lia|]. split; [reflexivity|].
  apply (update_mode_failed_write_reported (cfg0 (Some 2) 1 true 0) st_fail_first None None no_kwds w12 7%nat);
    [reflexivity | reflexivity | simpl; lia | reflexivity].
Defined.

(** X11 at a concrete input: the same URI from the same plain components. *)
Lemma init_uri_injective_witness :
  has_char ":"%char "scott" = false /\ has_char "@"%char "tiger" = false /\
  has_char ":"%char "localhost" = false /\ has_char "/"%char "27017" = false /\
  ("scott" = "scott" /\ "tiger" = "tiger" /\ "localhost" = "localhost" /\
   "27017" = "27017" /\ "app" = "app")%string.
Proof.
  split; [reflexivity|]. split; [reflexivity|]. split; [reflexivity|]. split; [reflexivity|].
  apply (init_uri_injective "scott" "tiger" "localhost" "27017" "app" None true false
                            "scott" "tiger" "localhost" "27017" "app" (Some "admin"%string) false true);
    reflexivity.
Defined.
